(** * ChatInterface: a model of [src/components/UI.tsx]

    The component keeps four pieces of React state that matter here
    ([messages], [inputMessage], [isLoading], [error]) plus the [isClient]
    hydration flag.  Its logic lives in three closures: [getApiUrl],
    [sendMessage] (an async function with one suspension point, the
    [await fetch(...)] / [await response.json()] pair) and [clearChat].

    Conventions of the embedding:
    - a JavaScript string is a [string]; its characters stand for code units
      below 256;
    - a JavaScript number that the code manipulates ([Date.now()],
      [response.status]) is a [Z]; all of them are integers far below 2^53,
      so [+ 1] is exact;
    - a value whose run-time shape the type annotations do not constrain
      ([data], [data.response], hence [Message.text]) is a [jsval];
    - the clock, the network and the JSON parser are the environment: their
      results are inputs of the handlers;
    - a handler reads the state of the latest render: React re-renders
      between two events, so the closure a handler runs in is current. *)

From Stdlib Require Import ZArith List String Ascii Bool Lia.
From Stdlib Require Import DecimalString DecimalZ.
Import ListNotations.

Set Warnings "-register-all".

Open Scope string_scope.
Open Scope list_scope.
Open Scope Z_scope.

(** ** JavaScript strings *)

Module JsString.

(** [WhiteSpace] and [LineTerminator] code units below 256, the set that
    [String.prototype.trim] strips: TAB, LF, VT, FF, CR, SP and NBSP. *)
Definition isWhiteSpace (c : ascii) : bool :=
  let n := nat_of_ascii c in
  ((9 <=? n)%nat && (n <=? 13)%nat) || (n =? 32)%nat || (n =? 160)%nat.

Definition isEmpty (s : string) : bool :=
  match s with
  | EmptyString => true
  | String _ _ => false
  end.

Fixpoint trimStart (s : string) : string :=
  match s with
  | EmptyString => EmptyString
  | String c rest => if isWhiteSpace c then trimStart rest else s
  end.

Fixpoint trimEnd (s : string) : string :=
  match s with
  | EmptyString => EmptyString
  | String c rest =>
      let rest' := trimEnd rest in
      if isWhiteSpace c && isEmpty rest' then EmptyString
      else String c rest'
  end.

(** [s.trim()] *)
Definition trim (s : string) : string := trimEnd (trimStart s).

(** [!s] for a string: the empty string is the only falsy one. *)
Definition falsy (s : string) : bool := isEmpty s.

(** [s.replace(/\/$/, '')]: the pattern has no [m] flag, so [$] matches
    at the end of the input only; the single (leftmost) match is a ["/"]
    that is the last character. *)
Fixpoint replace_trailing_slash (s : string) : string :=
  match s with
  | EmptyString => EmptyString
  | String c rest =>
      if Ascii.eqb c "/" && isEmpty rest then EmptyString
      else String c (replace_trailing_slash rest)
  end.

(** [s.includes(sub)] *)
Fixpoint includes (sub s : string) : bool :=
  if String.prefix sub s then true
  else match s with
       | EmptyString => false
       | String _ rest => includes sub rest
       end.

(** [n.toString()] for an integral number. *)
Definition toString (n : Z) : string :=
  NilZero.string_of_int (Z.to_int n).

End JsString.

Import JsString.

(** ** Run-time values *)

(** The values [response.json()] can produce, plus [undefined], which a
    property read yields when the property is absent. *)
Inductive jsval : Type :=
| JUndefined
| JNull
| JBool (b : bool)
| JNumber (n : Z)
| JString (s : string)
| JArray (items : list jsval)
| JObject (fields : list (string * jsval)).

(** The last binding of [k] in an object literal: [JSON.parse] lets a later
    duplicate key override an earlier one. *)
Fixpoint find_last (k : string) (fields : list (string * jsval))
  : option jsval :=
  match fields with
  | [] => None
  | (k', v) :: rest =>
      match find_last k rest with
      | Some later => Some later
      | None => if String.eqb k k' then Some v else None
      end
  end.

(** [obj[k]] on a parsed object: [undefined] when the key is absent. *)
Definition get_property (k : string) (fields : list (string * jsval)) : jsval :=
  match find_last k fields with
  | Some v => v
  | None => JUndefined
  end.

(** Exceptions that can reach the [catch] of [sendMessage]. *)
Inductive exn : Type :=
| HttpError (status : Z)          (* [throw new Error(`HTTP error! ...`)] *)
| EnvError (message : string)     (* rejection of [fetch] or of [json()] *)
| NullAccess.                     (* [data.response] on [null] *)

Inductive result (A : Type) : Type :=
| Return (a : A)
| Throw (e : exn).
Arguments Return {A} a.
Arguments Throw {A} e.

Definition bind {A B : Type} (r : result A) (k : A -> result B) : result B :=
  match r with
  | Return a => k a
  | Throw e => Throw e
  end.

Notation "x <- r ;; k" := (bind r (fun x => k))
  (at level 61, r at next level, right associativity).

(** [data.response]: a [TypeError] on [null] (and on [undefined], which
    [json()] never returns), the property of an object, [undefined] on
    anything else (primitives and arrays have no such property). *)
Definition get_response (data : jsval) : result jsval :=
  match data with
  | JNull | JUndefined => Throw NullAccess
  | JObject fields => Return (get_property "response" fields)
  | _ => Return JUndefined
  end.

(** The wording of the engine's [TypeError]; V8's is used. *)
Definition null_access_message : string :=
  "Cannot read properties of null (reading 'response')".

(** [err.message] *)
Definition message_of (e : exn) : string :=
  match e with
  | HttpError status => ("HTTP error! status: " ++ toString status)%string
  | EnvError message => message
  | NullAccess => null_access_message
  end.

(** ** Data model *)

Record Message : Type := mkMessage
  { id : string;
    text : jsval;
    isUser : bool;
    timestamp : Z }.

Record State : Type := mkState
  { messages : list Message;
    inputMessage : string;
    isLoading : bool;
    error : option string;
    isClient : bool }.

(** [useState] initial values. *)
Definition initialState : State :=
  {| messages := []; inputMessage := ""; isLoading := false;
     error := None; isClient := false |}.

(** State setters; [setMessages] takes the functional updater. *)
Definition setMessages (f : list Message -> list Message) (s : State) : State :=
  {| messages := f (messages s); inputMessage := inputMessage s;
     isLoading := isLoading s; error := error s; isClient := isClient s |}.

Definition setInputMessage (v : string) (s : State) : State :=
  {| messages := messages s; inputMessage := v;
     isLoading := isLoading s; error := error s; isClient := isClient s |}.

Definition setIsLoading (v : bool) (s : State) : State :=
  {| messages := messages s; inputMessage := inputMessage s;
     isLoading := v; error := error s; isClient := isClient s |}.

Definition setError (v : option string) (s : State) : State :=
  {| messages := messages s; inputMessage := inputMessage s;
     isLoading := isLoading s; error := v; isClient := isClient s |}.

Definition setIsClient (v : bool) (s : State) : State :=
  {| messages := messages s; inputMessage := inputMessage s;
     isLoading := isLoading s; error := error s; isClient := v |}.

(** ** The endpoint *)

Definition default_api_url : string := "http://127.0.0.1:8000".

(** [process.env.NEXT_PUBLIC_API_URL || 'http://127.0.0.1:8000']: the
    variable is [undefined] ([None]) or a string, and [||] falls through on
    both [undefined] and the empty string. *)
Definition API_URL (env : option string) : string :=
  match env with
  | None => default_api_url
  | Some v => if falsy v then default_api_url else v
  end.

Definition getApiUrl (env : option string) : string :=
  let baseUrl := replace_trailing_slash (API_URL env) in
  (baseUrl ++ "/chat")%string.

(** ** The network *)

Record Request : Type := mkRequest
  { url : string;
    method : string;
    headers : list (string * string);
    body : jsval }.          (* the value given to [JSON.stringify] *)

(** What [await response.json()] does. *)
Inductive BodyResult : Type :=
| ParseError (message : string)
| Parsed (data : jsval).

Record Response : Type := mkResponse
  { status : Z;
    json : BodyResult }.

(** [response.ok]: the status is in the range 200-299. *)
Definition ok (r : Response) : bool :=
  (200 <=? status r) && (status r <=? 299).

(** What [await fetch(...)] does. *)
Inductive Outcome : Type :=
| NetworkError (message : string)
| Responded (r : Response).

(** ** The handlers *)

Section Component.

(** The build-time value of [process.env.NEXT_PUBLIC_API_URL]. *)
Variable env : option string.

(** [a || b] on strings. *)
Definition or_else (a b : string) : string := if falsy a then b else a.

Definition apology : string :=
  "Sorry, I encountered an error. Please try again.".

(** The part of [sendMessage] that runs before the first [await].  [now]
    is the reading of [Date.now()], [date] that of [new Date()].  The
    result is the next state and the request handed to [fetch], if any. *)
Definition sendMessage (s : State) (now date : Z) : State * option Request :=
  if falsy (trim (inputMessage s)) || isLoading s then (s, None)
  else
    let userMessage :=
      {| id := toString now; text := JString (inputMessage s);
         isUser := true; timestamp := date |} in
    let s1 := setMessages (fun prev => prev ++ [userMessage]) s in
    let s2 := setInputMessage "" s1 in
    let s3 := setIsLoading true s2 in
    let s4 := setError None s3 in
    (s4,
     Some {| url := getApiUrl env;
             method := "POST";
             headers := [("Content-Type", "application/json")];
             body := JObject [("message", JString (inputMessage s))] |}).

(** The [try] block after [fetch] has settled, up to the read of
    [data.response]. *)
Definition attempt (o : Outcome) : result jsval :=
  response <- match o with
              | NetworkError m => Throw (EnvError m)
              | Responded r => Return r
              end ;;
  _ <- (if negb (ok response) then Throw (HttpError (status response))
        else Return tt) ;;
  data <- match json response with
          | ParseError m => Throw (EnvError m)
          | Parsed d => Return d
          end ;;
  get_response data.

(** The rest of [sendMessage], run when the request settles with [o];
    [now] and [date] are the clock readings of the message it builds. *)
Definition sendMessage_resume (s : State) (o : Outcome) (now date : Z)
  : State :=
  let s' :=
    match attempt o with
    | Return reply =>
        let botMessage :=
          {| id := toString (now + 1); text := reply;
             isUser := false; timestamp := date |} in
        setMessages (fun prev => prev ++ [botMessage]) s
    | Throw err =>
        let s' :=
          setError
            (Some ("Failed to send message: "
                     ++ or_else (message_of err) "Check console")%string)
            s in
        let errorMessage :=
          {| id := toString (now + 1); text := JString apology;
             isUser := false; timestamp := date |} in
        setMessages (fun prev => prev ++ [errorMessage]) s'
    end in
  (* finally *)
  setIsLoading false s'.

Definition clearChat (s : State) : State :=
  let s' := setMessages (fun _ => []) s in
  setError None s'.

(** *** The component together with the network *)

(** [inflight] holds the requests whose promise has not settled yet,
    oldest first; [sent] records every request ever handed to [fetch]. *)
Record World : Type := mkWorld
  { ui : State;
    inflight : list Request;
    sent : list Request }.

Definition initialWorld : World :=
  {| ui := initialState; inflight := []; sent := [] |}.

Inductive Event : Type :=
| Mount                                   (* the first [useEffect] *)
| Change (v : string)                     (* [onChange] of the input *)
| Submit (now date : Z)                   (* [onSubmit] of the form *)
| Settle (o : Outcome) (now date : Z)     (* the oldest request settles *)
| Clear.                                  (* [onClick] of "Clear Chat" *)

Definition issued (r : option Request) : list Request :=
  match r with
  | Some q => [q]
  | None => []
  end.

(** One event; [None] when the event cannot occur ([Settle] with nothing
    in flight). *)
Definition step (w : World) (e : Event) : option World :=
  match e with
  | Mount =>
      Some {| ui := setIsClient true (ui w);
              inflight := inflight w; sent := sent w |}
  | Change v =>
      Some {| ui := setInputMessage v (ui w);
              inflight := inflight w; sent := sent w |}
  | Submit now date =>
      let (s', req) := sendMessage (ui w) now date in
      Some {| ui := s';
              inflight := inflight w ++ issued req;
              sent := sent w ++ issued req |}
  | Settle o now date =>
      match inflight w with
      | [] => None
      | _ :: rest =>
          Some {| ui := sendMessage_resume (ui w) o now date;
                  inflight := rest; sent := sent w |}
      end
  | Clear =>
      Some {| ui := clearChat (ui w);
              inflight := inflight w; sent := sent w |}
  end.

Fixpoint run (w : World) (trace : list Event) : option World :=
  match trace with
  | [] => Some w
  | e :: rest =>
      match step w e with
      | Some w' => run w' rest
      | None => None
      end
  end.

Definition reachable (w : World) : Prop :=
  exists trace, run initialWorld trace = Some w.

(** A whole exchange with nothing in between: submit, then settlement. *)
Definition exchange (s : State) (now date : Z) (o : Outcome)
  (now' date' : Z) : State :=
  sendMessage_resume (fst (sendMessage s now date)) o now' date'.

End Component.

(** ** Rendering *)

(** What the component returns, reduced to the parts that depend on the
    state: which branch of each conditional is taken and what each dynamic
    attribute holds.  Class names and fixed texts are left out. *)
Record Bubble : Type := mkBubble
  { bubbleKey : string;        (* [key={message.id}] *)
    justifyEnd : bool;         (* ['justify-end'] for the user, else start *)
    avatar : bool;             (* the "AI" badge, [!message.isUser && ...] *)
    timeLabel : string;        (* [formatTime(message.timestamp)] *)
    content : jsval }.         (* [{message.text}] *)

Inductive Pane : Type :=
| Welcome                                           (* no message yet *)
| Conversation (bubbles : list Bubble) (thinking : bool).

Record Page : Type := mkPage
  { pane : Pane;
    banner : option string;    (* [{error && (...)}] *)
    inputValue : string;       (* [value={inputMessage}] *)
    inputDisabled : bool;      (* [disabled={isLoading}] *)
    submitDisabled : bool }.   (* [disabled={!inputMessage.trim() || isLoading}] *)

Inductive View : Type :=
| Placeholder                  (* the "Loading..." page of [!isClient] *)
| Interactive (p : Page).

Section Render.

(** [date.toLocaleTimeString('en-US', {hour: '2-digit', minute: '2-digit'})],
    which depends on the host's time zone and locale data. *)
Variable formatTime : Z -> string.

Definition renderMessage (message : Message) : Bubble :=
  {| bubbleKey := id message;
     justifyEnd := isUser message;
     avatar := negb (isUser message);
     timeLabel := formatTime (timestamp message);
     content := text message |}.

Definition render (s : State) : View :=
  if negb (isClient s) then Placeholder
  else
    Interactive
      {| pane :=
           if (List.length (messages s) =? 0)%nat then Welcome
           else Conversation (map renderMessage (messages s)) (isLoading s);
         banner :=
           match error s with
           | Some e => if falsy e then None else Some e
           | None => None
           end;
         inputValue := inputMessage s;
         inputDisabled := isLoading s;
         submitDisabled := falsy (trim (inputMessage s)) || isLoading s |}.

End Render.

(** ** Vocabulary of the statements *)

(** From the wording of the specification: "B with exactly one trailing
    slash (if present) removed". *)
Fixpoint ends_with_slash (B : string) : bool :=
  match B with
  | EmptyString => false
  | String c rest => if isEmpty rest then Ascii.eqb c "/" else ends_with_slash rest
  end.

Definition strip_one_trailing_slash (B : string) : string :=
  if ends_with_slash B then String.substring 0 (String.length B - 1) B else B.

(** The outcomes on which the [try] block throws, one constructor per
    [throw] that can reach the [catch]: [fetch] rejects; the status is not
    2xx; the body of a 2xx response is not JSON; the body is JSON but
    reading its [response] property throws (the value is [null]).  A 2xx
    body of any other shape is not among them. *)
Inductive reaches_catch : Outcome -> Prop :=
| catch_network (m : string) :
    reaches_catch (NetworkError m)
| catch_status (r : Response) :
    ok r = false -> reaches_catch (Responded r)
| catch_parse (r : Response) (m : string) :
    ok r = true -> json r = ParseError m -> reaches_catch (Responded r)
| catch_null (r : Response) (d : jsval) :
    ok r = true -> json r = Parsed d -> d = JNull \/ d = JUndefined ->
    reaches_catch (Responded r).

(** A clock discipline on the readings of [Date.now()] that a session
    really takes, from the world [w] on.  [fresh] is a number above every
    number printed into an id so far.  An accepted submit, whose id is its
    reading, must read at least [fresh]; a submit that returns at the guard
    reads no clock and is not constrained; a settlement, whose id is its
    reading plus one, must read at least [fresh - 1]. *)
Fixpoint well_spaced (env : option string) (fresh : Z) (w : World)
  (trace : list Event) {struct trace} : Prop :=
  match trace with
  | [] => True
  | e :: rest =>
      match step env w e with
      | None => True
      | Some w' =>
          match e with
          | Submit now date =>
              match snd (sendMessage env (ui w) now date) with
              | Some _ => fresh <= now /\ well_spaced env (now + 1) w' rest
              | None => well_spaced env fresh w' rest
              end
          | Settle _ now _ =>
              fresh <= now + 1 /\ well_spaced env (now + 2) w' rest
          | _ => well_spaced env fresh w' rest
          end
      end
  end.

(** Every id in [ms] is the print of a number below [b]. *)
Definition ids_below (b : Z) (ms : list Message) : Prop :=
  Forall (fun m => exists n, id m = toString n /\ n < b) ms.

(** The ids of [ms] are pairwise distinct prints of numbers below [b]. *)
Definition distinct_below (b : Z) (ms : list Message) : Prop :=
  ids_below b ms /\ NoDup (map id ms).

(** At most one request is in flight, and exactly when the loading flag is
    up. *)
Definition single_flight (w : World) : Prop :=
  (isLoading (ui w) = false /\ inflight w = [])
  \/ (isLoading (ui w) = true /\ exists q, inflight w = [q]).

(** The last message of a transcript. *)
Definition final (ms : list Message) : option Message :=
  match rev ms with
  | m :: _ => Some m
  | [] => None
  end.

(** Neighbouring messages have different origins. *)
Fixpoint alternates (ms : list Message) : bool :=
  match ms with
  | m1 :: rest =>
      match rest with
      | m2 :: _ => negb (Bool.eqb (isUser m1) (isUser m2)) && alternates rest
      | [] => true
      end
  | [] => true
  end.

(** Every character of [s] is one that [trim] strips. *)
Definition blank (s : string) : bool :=
  forallb isWhiteSpace (list_ascii_of_string s).

Definition isMount (e : Event) : bool :=
  match e with
  | Mount => true
  | _ => false
  end.

Definition isClear (e : Event) : bool :=
  match e with
  | Clear => true
  | _ => false
  end.

(** A request as [sendMessage] builds them: a JSON POST to the endpoint
    whose body has the single field [message], holding a text that is not
    blank. *)
Definition chat_request (env : option string) (q : Request) : Prop :=
  url q = getApiUrl env
  /\ method q = "POST"
  /\ headers q = [("Content-Type", "application/json")]
  /\ exists t, body q = JObject [("message", JString t)] /\ trim t <> "".

(** The state of the error and of the end of the transcript after a failed
    exchange. *)
Definition error_shape (s : State) : Prop :=
  forall e, error s = Some e ->
    isLoading s = false
    /\ (exists detail,
          e = ("Failed to send message: " ++ detail)%string /\ detail <> "")
    /\ (exists m, final (messages s) = Some m
                  /\ isUser m = false /\ text m = JString apology).

(** ** Sample data *)

(** The state while the request for "Hello", submitted at time 1000, is in
    flight. *)
Definition pending_hello : World :=
  {| ui := {| messages := [{| id := "1000"; text := JString "Hello";
                              isUser := true; timestamp := 1000 |}];
              inputMessage := ""; isLoading := true; error := None;
              isClient := true |};
     inflight := [{| url := "http://127.0.0.1:8000/chat"; method := "POST";
                     headers := [("Content-Type", "application/json")];
                     body := JObject [("message", JString "Hello")] |}];
     sent := [{| url := "http://127.0.0.1:8000/chat"; method := "POST";
                 headers := [("Content-Type", "application/json")];
                 body := JObject [("message", JString "Hello")] |}] |}.

Definition reply_hi : Outcome :=
  Responded {| status := 200;
               json := Parsed (JObject [("response", JString "Hi there!")]) |}.

(** The same with "B" typed into the input field meanwhile. *)
Definition pending_hello_typed_B : World :=
  {| ui := setInputMessage "B" (ui pending_hello);
     inflight := inflight pending_hello;
     sent := sent pending_hello |}.

(** An idle state with "Hello" typed, and one with " hi " typed. *)
Definition idle_hello : State :=
  {| messages := []; inputMessage := "Hello"; isLoading := false;
     error := None; isClient := true |}.

Definition idle_padded : State :=
  {| messages := []; inputMessage := " hi "; isLoading := false;
     error := None; isClient := true |}.

Definition http_500 : Outcome :=
  Responded {| status := 500; json := ParseError "Unexpected token" |}.

(** A 2xx response whose body is the JSON object with no field. *)
Definition reply_empty_object : Outcome :=
  Responded {| status := 200; json := Parsed (JObject []) |}.

(** A 2xx response whose body names the reply field otherwise. *)
Definition reply_misnamed_field : Outcome :=
  Responded {| status := 200;
               json := Parsed (JObject [("reply", JString "Hi there!")]) |}.

(** A reply arrives at time 1004; the next submit reads the clock at 1005. *)
Definition collision_trace : list Event :=
  [Change "a"; Submit 1000 1000; Settle reply_hi 1004 1004;
   Change "b"; Submit 1005 1005].

(** The same session with the second submit two milliseconds later, and
    with a submit that is refused meanwhile (its clock value, never read,
    is arbitrary). *)
Definition spaced_trace : list Event :=
  [Change "a"; Submit 1000 1000; Submit 0 0; Settle reply_hi 1004 1004;
   Change "b"; Submit 1006 1006].

(** The world after the request for "Hello" has failed with status 500. *)
Definition failed_hello : World :=
  {| ui := {| messages :=
                [{| id := "1000"; text := JString "Hello";
                    isUser := true; timestamp := 1000 |};
                 {| id := "1201"; text := JString apology;
                    isUser := false; timestamp := 1200 |}];
              inputMessage := ""; isLoading := false;
              error := Some "Failed to send message: HTTP error! status: 500";
              isClient := true |};
     inflight := [];
     sent := sent pending_hello |}.

(** * Properties *)

(** ** Facts about the string primitives *)

Lemma isEmpty_true (s : string) : isEmpty s = true <-> s = "".
Proof. destruct s; simpl; split; congruence. Qed.

Lemma isEmpty_false (s : string) : isEmpty s = false <-> s <> "".
Proof. destruct s; simpl; split; congruence. Qed.

Lemma to_int_nonnil (n : Z) :
  Z.to_int n <> Decimal.Pos Decimal.Nil /\ Z.to_int n <> Decimal.Neg Decimal.Nil.
Proof.
  destruct n as [|p|p]; simpl; split; try discriminate;
    intros H; injection H as H; exact (DecimalPos.Unsigned.to_uint_nonnil p H).
Qed.

(** Two numbers print alike only if they are equal. *)
Lemma toString_inj (m n : Z) : toString m = toString n -> m = n.
Proof.
  unfold toString; intros H.
  destruct (to_int_nonnil m) as [Hm1 Hm2], (to_int_nonnil n) as [Hn1 Hn2].
  apply DecimalZ.to_int_inj.
  pose proof (NilZero.isi _ Hm1 Hm2) as Em.
  pose proof (NilZero.isi _ Hn1 Hn2) as En.
  rewrite H in Em; congruence.
Qed.

Lemma prefix_refl_app (a b : string) : String.prefix a (a ++ b)%string = true.
Proof.
  induction a as [|c a IH]; simpl.
  - now destruct b.
  - destruct (ascii_dec c c); [exact IH | congruence].
Qed.

Lemma includes_unfold (sub s : string) :
  includes sub s =
  if String.prefix sub s then true
  else match s with
       | EmptyString => false
       | String _ rest => includes sub rest
       end.
Proof. now destruct s. Qed.

Lemma includes_app (pre sub post : string) :
  includes sub (pre ++ sub ++ post)%string = true.
Proof.
  induction pre as [|c pre IH].
  - cbn [String.append]. now rewrite includes_unfold, prefix_refl_app.
  - rewrite includes_unfold. cbn [String.append]. rewrite IH.
    now destruct (String.prefix sub _).
Qed.

Lemma append_nonempty_l (a b : string) : a <> "" -> (a ++ b)%string <> "".
Proof. destruct a; simpl; congruence. Qed.

(** ** The endpoint URL *)

Lemma replace_trailing_slash_spec (B : string) :
  replace_trailing_slash B = strip_one_trailing_slash B.
Proof.
  unfold strip_one_trailing_slash.
  induction B as [|c rest IH]; [reflexivity|].
  cbn [replace_trailing_slash ends_with_slash String.length].
  destruct rest as [|c' rest'].
  - simpl. now destruct (Ascii.eqb c "/").
  - rewrite andb_false_r. cbn [isEmpty]. rewrite IH.
    destruct (ends_with_slash (String c' rest')); [|reflexivity].
    cbn [String.length]. simpl Nat.sub. rewrite Nat.sub_0_r. reflexivity.
Qed.

Lemma replace_trailing_slash_append (B : string) :
  replace_trailing_slash (B ++ "/") = B.
Proof.
  induction B as [|c rest IH]; [reflexivity|].
  cbn [String.append replace_trailing_slash]. rewrite IH.
  destruct rest; simpl; now rewrite andb_false_r.
Qed.

Lemma replace_trailing_slash_id (B : string) :
  ends_with_slash B = false -> replace_trailing_slash B = B.
Proof.
  intros H. now rewrite replace_trailing_slash_spec; unfold strip_one_trailing_slash; rewrite H.
Qed.

Lemma API_URL_configured (B : string) : B <> "" -> API_URL (Some B) = B.
Proof. destruct B; simpl; congruence. Qed.

(** C9, as stated, fails at the empty base URL: [||] treats it as unset, so
    the endpoint is built from the default and is not ["/chat"]; hence ["/"]
    and the same URL without its slash give different endpoints.  So do a
    URL that ends in two slashes and the same URL without the last one:
    only one slash is removed from each. *)
Lemma getApiUrl_empty_base_counterexample :
  getApiUrl (Some "") = "http://127.0.0.1:8000/chat"
  /\ getApiUrl (Some "") <> (strip_one_trailing_slash "" ++ "/chat")%string
  /\ getApiUrl (Some "/") <> getApiUrl (Some "")
  /\ getApiUrl (Some "http://x//") = "http://x//chat"
  /\ getApiUrl (Some "http://x/") = "http://x/chat".
Proof. repeat split; vm_compute; discriminate. Qed.

(** C9 (amended): for every non-empty configured base URL [B] the endpoint
    is [B] with exactly one trailing slash, if present, removed, followed by
    ["/chat"]; a non-empty [B] that does not end in a slash and [B] with one
    slash appended give the same endpoint; an absent or empty configuration
    gives ["http://127.0.0.1:8000/chat"]. *)
Theorem getApiUrl_endpoint (B : string) :
  B <> "" ->
  getApiUrl (Some B) = (strip_one_trailing_slash B ++ "/chat")%string
  /\ (ends_with_slash B = false ->
      getApiUrl (Some (B ++ "/")%string) = getApiUrl (Some B))
  /\ getApiUrl None = "http://127.0.0.1:8000/chat"
  /\ getApiUrl (Some "") = "http://127.0.0.1:8000/chat".
Proof.
  intros HB. unfold getApiUrl.
  rewrite (API_URL_configured B HB), replace_trailing_slash_spec.
  split; [reflexivity|]. split; [|split; reflexivity].
  intros Hs.
  rewrite API_URL_configured by (now apply append_nonempty_l).
  rewrite replace_trailing_slash_append.
  unfold strip_one_trailing_slash. now rewrite Hs.
Qed.

Lemma getApiUrl_endpoint_witness :
  getApiUrl (Some "http://localhost:8000/") = "http://localhost:8000/chat"
  /\ getApiUrl (Some "http://localhost:8000/") = getApiUrl (Some "http://localhost:8000").
Proof.
  split.
  - exact (proj1 (getApiUrl_endpoint "http://localhost:8000/" ltac:(discriminate))).
  - exact (proj1 (proj2 (getApiUrl_endpoint "http://localhost:8000" ltac:(discriminate)))
             eq_refl).
Defined.

(** ** The handlers, case by case *)

Lemma guard_open (s : State) :
  isLoading s = false -> trim (inputMessage s) <> "" ->
  falsy (trim (inputMessage s)) || isLoading s = false.
Proof.
  intros Hl Ht. rewrite Hl, orb_false_r. now apply isEmpty_false.
Qed.

Lemma guard_closed (s : State) :
  trim (inputMessage s) = "" \/ isLoading s = true ->
  falsy (trim (inputMessage s)) || isLoading s = true.
Proof.
  intros [Ht | Hl].
  - unfold falsy. now rewrite Ht.
  - rewrite Hl. apply orb_true_r.
Qed.

Lemma sendMessage_accepted (env : option string) (s : State) (now date : Z) :
  isLoading s = false -> trim (inputMessage s) <> "" ->
  sendMessage env s now date =
  ({| messages := messages s ++
                  [{| id := toString now; text := JString (inputMessage s);
                      isUser := true; timestamp := date |}];
      inputMessage := ""; isLoading := true; error := None;
      isClient := isClient s |},
   Some {| url := getApiUrl env; method := "POST";
           headers := [("Content-Type", "application/json")];
           body := JObject [("message", JString (inputMessage s))] |}).
Proof.
  intros Hl Ht. unfold sendMessage. now rewrite guard_open.
Qed.

Lemma sendMessage_rejected (env : option string) (s : State) (now date : Z) :
  trim (inputMessage s) = "" \/ isLoading s = true ->
  sendMessage env s now date = (s, None).
Proof.
  intros H. unfold sendMessage. now rewrite guard_closed.
Qed.

Lemma ok_iff (r : Response) : ok r = true <-> 200 <= status r <= 299.
Proof. unfold ok. rewrite andb_true_iff, !Z.leb_le. tauto. Qed.

(** [reaches_catch] holds of exactly the outcomes on which [attempt] throws. *)
Lemma attempt_throws_iff (o : Outcome) :
  (exists e, attempt o = Throw e) <-> reaches_catch o.
Proof.
  split.
  - intros [e He]. destruct o as [m | r]; [constructor|].
    unfold attempt, bind in He.
    destruct (ok r) eqn:Hok; [|now apply catch_status].
    destruct (json r) as [m | d] eqn:Hj; [now apply catch_parse with m|].
    apply catch_null with d; auto.
    destruct d; simpl in He; try discriminate; auto.
  - intros H. destruct H as [m | r Hok | r m Hok Hj | r d Hok Hj Hd];
      unfold attempt, bind; rewrite ?Hok, ?Hj; simpl; eauto.
    destruct Hd; subst d; simpl; eauto.
Qed.

Lemma resume_return (s : State) (o : Outcome) (now date : Z) (reply : jsval) :
  attempt o = Return reply ->
  sendMessage_resume s o now date =
  {| messages := messages s ++
                 [{| id := toString (now + 1); text := reply;
                     isUser := false; timestamp := date |}];
     inputMessage := inputMessage s; isLoading := false;
     error := error s; isClient := isClient s |}.
Proof. intros H. unfold sendMessage_resume. now rewrite H. Qed.

Lemma resume_throw (s : State) (o : Outcome) (now date : Z) (e : exn) :
  attempt o = Throw e ->
  sendMessage_resume s o now date =
  {| messages := messages s ++
                 [{| id := toString (now + 1); text := JString apology;
                     isUser := false; timestamp := date |}];
     inputMessage := inputMessage s; isLoading := false;
     error := Some ("Failed to send message: "
                      ++ or_else (message_of e) "Check console")%string;
     isClient := isClient s |}.
Proof. intros H. unfold sendMessage_resume. now rewrite H. Qed.

(** Whatever the outcome, settlement appends one assistant message. *)
Lemma resume_messages (s : State) (o : Outcome) (now date : Z) :
  messages (sendMessage_resume s o now date) =
  messages s ++
  [{| id := toString (now + 1);
      text := match attempt o with
              | Return reply => reply
              | Throw _ => JString apology
              end;
      isUser := false; timestamp := date |}].
Proof. unfold sendMessage_resume. now destruct (attempt o). Qed.

(** ** clearChat *)

(** C10: [clearChat] touches [messages] and [error] only; the loading flag,
    the input field (and the hydration flag) keep their values, and at the
    level of the world nothing in flight or already sent is changed. *)
Theorem clearChat_frame (env : option string) (w : World) :
  isLoading (clearChat (ui w)) = isLoading (ui w)
  /\ inputMessage (clearChat (ui w)) = inputMessage (ui w)
  /\ isClient (clearChat (ui w)) = isClient (ui w)
  /\ step env w Clear =
     Some {| ui := {| messages := []; inputMessage := inputMessage (ui w);
                      isLoading := isLoading (ui w); error := None;
                      isClient := isClient (ui w) |};
             inflight := inflight w; sent := sent w |}.
Proof. repeat split. Qed.

(** C6: from any state [clearChat] leaves no message and no error; the
    requests in flight stay in flight, and when one settles afterwards its
    assistant message (the reply or the apology) is appended to the empty
    list. *)
Theorem clearChat_then_settle
  (env : option string) (w : World) (o : Outcome) (now date : Z) :
  exists w1,
    step env w Clear = Some w1
    /\ messages (ui w1) = [] /\ error (ui w1) = None
    /\ inflight w1 = inflight w
    /\ (inflight w <> [] ->
        exists w2,
          step env w1 (Settle o now date) = Some w2
          /\ messages (ui w2) =
             [{| id := toString (now + 1);
                 text := match attempt o with
                         | Return reply => reply
                         | Throw _ => JString apology
                         end;
                 isUser := false; timestamp := date |}]).
Proof.
  eexists. split; [reflexivity|]. cbn [ui inflight].
  repeat (split; [reflexivity|]).
  intros Hin. destruct (inflight w) as [|req rest]; [congruence|].
  eexists. split; [reflexivity|].
  cbn [ui]. now rewrite resume_messages.
Qed.

Lemma clearChat_then_settle_witness :
  exists w2,
    option_map (fun w => map text (messages (ui w)))
      (run None pending_hello [Clear; Settle reply_hi 1200 1200])
    = Some (map text (messages (ui w2)))
    /\ map text (messages (ui w2)) = [JString "Hi there!"].
Proof.
  destruct (clearChat_then_settle None pending_hello reply_hi 1200 1200)
    as (w1 & Hstep & _ & _ & _ & Hsettle).
  destruct Hsettle as (w2 & Hstep2 & Hm); [discriminate|].
  exists w2. cbn [run]. rewrite Hstep, Hstep2. cbn [option_map].
  rewrite Hm. split; reflexivity.
Defined.

(** ** Transitions of the message list *)

(** C7: a transition either appends to the end of [messages] (at most one
    message, none for a rejected submit, typing or mounting) or, for
    [Clear] only, resets the list to empty; what was there is kept as it
    was and in place. *)
Theorem messages_append_or_reset
  (env : option string) (w w' : World) (e : Event) :
  step env w e = Some w' ->
  (e = Clear /\ messages (ui w') = [])
  \/ (e <> Clear /\ exists added,
        messages (ui w') = messages (ui w) ++ added
        /\ (List.length added <= 1)%nat).
Proof.
  intros Hstep. destruct e as [|v|now date|o now date|]; cbn [step] in Hstep.
  - injection Hstep as <-. right; split; [discriminate|].
    exists []. cbn. split; [now rewrite app_nil_r | lia].
  - injection Hstep as <-. right; split; [discriminate|].
    exists []. cbn. split; [now rewrite app_nil_r | lia].
  - right; split; [discriminate|].
    unfold sendMessage in Hstep.
    destruct (falsy (trim (inputMessage (ui w))) || isLoading (ui w));
      injection Hstep as <-; cbn.
    + exists []. cbn. split; [now rewrite app_nil_r | lia].
    + eexists. split; [reflexivity|]. cbn; lia.
  - right; split; [discriminate|].
    destruct (inflight w) as [|req rest]; [discriminate|].
    injection Hstep as <-. cbn [ui]. rewrite resume_messages.
    eexists. split; [reflexivity|]. cbn; lia.
  - injection Hstep as <-. left. split; reflexivity.
Qed.

Lemma messages_append_or_reset_witness :
  exists last,
    option_map (fun w => map text (messages (ui w)))
      (step None pending_hello (Settle reply_hi 1200 1200))
    = Some ([JString "Hello"] ++ last).
Proof.
  destruct (step None pending_hello (Settle reply_hi 1200 1200)) as [w'|] eqn:E;
    [|discriminate].
  destruct (messages_append_or_reset None pending_hello w' _ E)
    as [[Hc _] | (_ & added & Hm & _)]; [discriminate|].
  exists (map text added). cbn [option_map]. rewrite Hm, map_app. reflexivity.
Defined.

(** ** The guard of sendMessage *)

(** C3: when the input is empty after trimming, or a request is pending,
    [sendMessage] returns at its guard: the state is returned as it is
    (messages, loading flag, error, input field), no request is handed to
    [fetch], and the world is unchanged, so nothing joins the requests in
    flight or the log of requests sent. *)
Theorem sendMessage_guard_noop
  (env : option string) (w : World) (now date : Z) :
  trim (inputMessage (ui w)) = "" \/ isLoading (ui w) = true ->
  sendMessage env (ui w) now date = (ui w, None)
  /\ step env w (Submit now date) = Some w.
Proof.
  intros H. split; [now apply sendMessage_rejected|].
  cbn [step]. rewrite (sendMessage_rejected env _ now date H).
  destruct w; cbn. now rewrite !app_nil_r.
Qed.

(** "A" is in flight, "B" is typed and submitted: only "A" has been sent. *)
Lemma sendMessage_guard_noop_witness :
  step None pending_hello_typed_B (Submit 1100 1100) = Some pending_hello_typed_B
  /\ map body (sent pending_hello_typed_B) = [JObject [("message", JString "Hello")]].
Proof.
  split; [|reflexivity].
  apply (sendMessage_guard_noop None pending_hello_typed_B 1100 1100).
  right. reflexivity.
Defined.

(** ** Single flight *)

Lemma step_single_flight (env : option string) (w w' : World) (e : Event) :
  single_flight w -> step env w e = Some w' -> single_flight w'.
Proof.
  intros Hinv Hstep.
  destruct e as [|v|now date|o now date|]; cbn [step] in Hstep.
  - injection Hstep as <-. exact Hinv.
  - injection Hstep as <-. exact Hinv.
  - unfold sendMessage in Hstep.
    destruct Hinv as [[Hl Hin] | [Hl [q Hin]]]; rewrite Hl, Hin in Hstep.
    + rewrite orb_false_r in Hstep.
      destruct (falsy (trim (inputMessage (ui w)))); injection Hstep as <-.
      * left. cbn. now rewrite Hl.
      * right. cbn. eauto.
    + rewrite orb_true_r in Hstep. injection Hstep as <-.
      right. cbn. eauto.
  - destruct Hinv as [[Hl Hin] | [Hl [q Hin]]]; rewrite Hin in Hstep;
      [discriminate|].
    injection Hstep as <-. left. split; [|reflexivity].
    cbn [ui]. unfold sendMessage_resume. reflexivity.
  - injection Hstep as <-. exact Hinv.
Qed.

Lemma run_single_flight (env : option string) (trace : list Event) :
  forall w w', single_flight w -> run env w trace = Some w' -> single_flight w'.
Proof.
  induction trace as [|e rest IH]; intros w w' Hinv Hrun; cbn [run] in Hrun.
  - now injection Hrun as <-.
  - destruct (step env w e) as [w1|] eqn:Hstep; [|discriminate].
    eauto using step_single_flight.
Qed.

(** Every reachable world has at most one request in flight. *)
Lemma reachable_single_flight (env : option string) (w : World) :
  reachable env w -> single_flight w.
Proof.
  intros [trace Hrun].
  apply (run_single_flight env trace initialWorld w); [|assumption].
  left. split; reflexivity.
Qed.

(** ** A whole exchange *)

(** C1: from an idle state with an input that is not blank, a 2xx response
    whose body is a JSON object with a string [response] makes the exchange
    append two messages, the user's (with the input as typed) and then the
    assistant's (with that string); the loading flag ends false and no
    error is set. *)
Theorem exchange_success
  (env : option string) (s : State) (now date : Z)
  (r : Response) (fields : list (string * jsval)) (reply : string)
  (now' date' : Z) :
  isLoading s = false ->
  trim (inputMessage s) <> "" ->
  200 <= status r <= 299 ->
  json r = Parsed (JObject fields) ->
  get_property "response" fields = JString reply ->
  let s' := exchange env s now date (Responded r) now' date' in
  messages s' =
    messages s ++
    [{| id := toString now; text := JString (inputMessage s);
        isUser := true; timestamp := date |};
     {| id := toString (now' + 1); text := JString reply;
        isUser := false; timestamp := date' |}]
  /\ isLoading s' = false
  /\ error s' = None.
Proof.
  intros Hl Ht Hst Hj Hf s'. subst s'. unfold exchange.
  rewrite (sendMessage_accepted env s now date Hl Ht). cbn [fst].
  apply ok_iff in Hst.
  assert (Ha : attempt (Responded r) = Return (JString reply)).
  { unfold attempt, bind. rewrite Hst, Hj. cbn. now rewrite Hf. }
  rewrite (resume_return _ _ _ _ _ Ha). cbn.
  rewrite <- app_assoc. repeat split.
Qed.

Lemma exchange_success_witness :
  let s' := exchange None idle_hello 1000 1000 reply_hi 1200 1200 in
  map text (messages s') = [JString "Hello"; JString "Hi there!"]
  /\ map isUser (messages s') = [true; false]
  /\ isLoading s' = false /\ error s' = None.
Proof.
  destruct (exchange_success None idle_hello 1000 1000
              {| status := 200;
                 json := Parsed (JObject [("response", JString "Hi there!")]) |}
              [("response", JString "Hi there!")] "Hi there!" 1200 1200)
    as (Hm & Hl & He);
    [reflexivity | discriminate | cbn; lia | reflexivity | reflexivity |].
  cbv zeta. unfold reply_hi. rewrite Hm, Hl, He. repeat split.
Defined.

Lemma attempt_status (r : Response) :
  ok r = false -> attempt (Responded r) = Throw (HttpError (status r)).
Proof. intros H. unfold attempt, bind. now rewrite H. Qed.

Lemma includes_suffix (pre sub : string) :
  includes sub (pre ++ sub)%string = true.
Proof.
  assert (E : sub = (sub ++ "")%string).
  { clear. induction sub; cbn; congruence. }
  rewrite E at 2. apply includes_app.
Qed.

(** C2, as stated, fails at a malformed response that does not throw: a
    2xx body that is a JSON object without the [response] field sets no
    error and appends no apology. *)
Lemma misnamed_field_counterexample :
  error (exchange None idle_hello 1000 1000 reply_misnamed_field 1200 1200)
    = None
  /\ map text
       (messages (exchange None idle_hello 1000 1000 reply_misnamed_field
                    1200 1200))
     = [JString "Hello"; JUndefined].
Proof. split; reflexivity. Qed.

(** C2 (amended): from an idle state with an input that is not blank, an
    exchange that fails by a rejected [fetch], a status outside 2xx, or a
    2xx body that is not JSON or is [null], appends the user's message and
    then one assistant message whose text is the fixed apology; [error]
    becomes a non-empty string, which contains the printed status when the
    status is outside 2xx; the loading flag, raised by the submit, is back
    to false at the end. *)
Theorem exchange_failure
  (env : option string) (s : State) (now date : Z) (o : Outcome)
  (now' date' : Z) :
  isLoading s = false ->
  trim (inputMessage s) <> "" ->
  reaches_catch o ->
  let s' := exchange env s now date o now' date' in
  messages s' =
    messages s ++
    [{| id := toString now; text := JString (inputMessage s);
        isUser := true; timestamp := date |};
     {| id := toString (now' + 1);
        text := JString "Sorry, I encountered an error. Please try again.";
        isUser := false; timestamp := date' |}]
  /\ (exists e, error s' = Some e /\ e <> ""
                /\ (forall r, o = Responded r -> ~ 200 <= status r <= 299 ->
                    includes (toString (status r)) e = true))
  /\ isLoading (fst (sendMessage env s now date)) = true
  /\ isLoading s' = false.
Proof.
  intros Hl Ht Hf s'. subst s'. unfold exchange.
  rewrite (sendMessage_accepted env s now date Hl Ht). cbn [fst].
  apply attempt_throws_iff in Hf. destruct Hf as [e He].
  rewrite (resume_throw _ _ _ _ _ He). cbn [messages error isLoading].
  rewrite <- app_assoc. split; [reflexivity|].
  split; [|split; reflexivity].
  eexists. split; [reflexivity|]. split; [discriminate|].
  intros r -> Hst.
  assert (Hok : ok r = false).
  { destruct (ok r) eqn:E; [|reflexivity]. apply ok_iff in E. contradiction. }
  rewrite (attempt_status r Hok) in He. injection He as <-.
  cbn [message_of]. unfold or_else. cbn [String.append falsy isEmpty].
  apply (includes_suffix "Failed to send message: HTTP error! status: ").
Qed.

Lemma exchange_failure_witness :
  let s' := exchange None idle_hello 1000 1000 http_500 1200 1200 in
  map text (messages s') =
    [JString "Hello";
     JString "Sorry, I encountered an error. Please try again."]
  /\ (exists e, error s' = Some e /\ e <> "" /\ includes "500" e = true)
  /\ isLoading (fst (sendMessage None idle_hello 1000 1000)) = true
  /\ isLoading s' = false.
Proof.
  destruct (exchange_failure None idle_hello 1000 1000 http_500 1200 1200)
    as (Hm & (e & He & Hne & Hinc) & Hup & Hl);
    [reflexivity | discriminate | apply catch_status; reflexivity |].
  cbv zeta. rewrite Hm, Hl. split; [reflexivity|].
  split; [|split; [exact Hup | reflexivity]].
  exists e. repeat split; auto.
  apply (Hinc _ eq_refl). cbn. lia.
Defined.

(** ** Bodies of an unexpected shape *)

(** C4, as stated, fails: a 2xx response whose body is the JSON object
    without a [response] field is not handled as a failure; no error is
    set and the assistant message appended has the text [undefined]. *)
Lemma missing_field_counterexample :
  error (exchange None idle_hello 1000 1000 reply_empty_object 1200 1200) = None
  /\ map text
       (messages (exchange None idle_hello 1000 1000 reply_empty_object 1200 1200))
     = [JString "Hello"; JUndefined].
Proof. split; reflexivity. Qed.

(** C4 (amended): a 2xx response is handled as a failure (error set,
    apology appended) when its body cannot be parsed as JSON or parses to
    [null].  A 2xx body that parses to another JSON value and has no
    [response] property (an object without that field, or a value that is
    not an object) is not handled as a failure: the error stays absent and
    the assistant message appended has the text [undefined], not the
    apology. *)
Theorem unexpected_body_handling
  (env : option string) (s : State) (now date : Z) (r : Response)
  (now' date' : Z) :
  isLoading s = false ->
  trim (inputMessage s) <> "" ->
  200 <= status r <= 299 ->
  let s' := exchange env s now date (Responded r) now' date' in
  let user :=
    {| id := toString now; text := JString (inputMessage s);
       isUser := true; timestamp := date |} in
  let assistant (t : jsval) :=
    {| id := toString (now' + 1); text := t;
       isUser := false; timestamp := date' |} in
  ((json r = Parsed JNull \/ exists m, json r = ParseError m) ->
     error s' <> None
     /\ messages s' = messages s ++ [user; assistant (JString apology)])
  /\ (forall fields,
        json r = Parsed (JObject fields) ->
        find_last "response" fields = None ->
        error s' = None
        /\ messages s' = messages s ++ [user; assistant JUndefined])
  /\ (forall d, json r = Parsed d ->
       match d with
       | JBool _ | JNumber _ | JString _ | JArray _ => True
       | _ => False
       end ->
       error s' = None
       /\ messages s' = messages s ++ [user; assistant JUndefined]).
Proof.
  intros Hl Ht Hst s' user assistant. subst s' user assistant.
  unfold exchange.
  rewrite (sendMessage_accepted env s now date Hl Ht). cbn [fst].
  apply ok_iff in Hst.
  split; [|split].
  - intros H.
    assert (Hf : reaches_catch (Responded r)).
    { destruct H as [Hj | [m Hj]].
      - apply catch_null with JNull; auto.
      - now apply catch_parse with m. }
    apply attempt_throws_iff in Hf. destruct Hf as [e He].
    rewrite (resume_throw _ _ _ _ _ He). cbn [messages error].
    rewrite <- app_assoc. split; [discriminate | reflexivity].
  - intros fields Hj Hnone.
    assert (Ha : attempt (Responded r) = Return JUndefined).
    { unfold attempt, bind. rewrite Hst, Hj. cbn.
      unfold get_property. now rewrite Hnone. }
    rewrite (resume_return _ _ _ _ _ Ha). cbn [messages error].
    rewrite <- app_assoc. split; reflexivity.
  - intros d Hj Hd.
    assert (Ha : attempt (Responded r) = Return JUndefined).
    { unfold attempt, bind. rewrite Hst, Hj. now destruct d. }
    rewrite (resume_return _ _ _ _ _ Ha). cbn [messages error].
    rewrite <- app_assoc. split; reflexivity.
Qed.

Lemma unexpected_body_handling_witness :
  error (exchange None idle_hello 1000 1000
           (Responded {| status := 200; json := Parsed JNull |}) 1200 1200)
    <> None
  /\ error (exchange None idle_hello 1000 1000
              (Responded {| status := 200;
                            json := Parsed (JObject [("answer", JNumber 5)]) |})
              1200 1200) = None
  /\ error (exchange None idle_hello 1000 1000
              (Responded {| status := 200; json := Parsed (JString "hi") |})
              1200 1200) = None.
Proof.
  split; [|split].
  - refine (proj1 (proj1 (unexpected_body_handling None idle_hello 1000 1000
                     {| status := 200; json := Parsed JNull |} 1200 1200
                     eq_refl _ _) _)).
    + discriminate.
    + cbn; lia.
    + left; reflexivity.
  - refine (proj1 (proj1 (proj2 (unexpected_body_handling None idle_hello
                     1000 1000
                     {| status := 200;
                        json := Parsed (JObject [("answer", JNumber 5)]) |}
                     1200 1200 eq_refl _ _)) _ eq_refl eq_refl)).
    + discriminate.
    + cbn; lia.
  - refine (proj1 (proj2 (proj2 (unexpected_body_handling None idle_hello
                     1000 1000
                     {| status := 200; json := Parsed (JString "hi") |}
                     1200 1200 eq_refl _ _)) _ eq_refl I)).
    + discriminate.
    + cbn; lia.
Defined.

(** ** The request *)

(** C5, as stated, fails: the body carries the input as typed; [trim] is
    applied in the guard only. *)
Lemma request_body_counterexample :
  option_map body (snd (sendMessage None idle_padded 1000 1000))
    = Some (JObject [("message", JString " hi ")])
  /\ trim " hi " = "hi"
  /\ JObject [("message", JString " hi ")]
     <> JObject [("message", JString (trim " hi "))].
Proof. repeat split. vm_compute. discriminate. Qed.

(** C5 (amended): for every input that passes the guard, the request is a
    POST to the endpoint with a JSON content type whose body is the object
    with the single field [message] holding the input text as typed,
    leading and trailing whitespace included. *)
Theorem request_body_untrimmed
  (env : option string) (s : State) (now date : Z) :
  isLoading s = false ->
  trim (inputMessage s) <> "" ->
  snd (sendMessage env s now date) =
  Some {| url := getApiUrl env; method := "POST";
          headers := [("Content-Type", "application/json")];
          body := JObject [("message", JString (inputMessage s))] |}.
Proof.
  intros Hl Ht. now rewrite (sendMessage_accepted env s now date Hl Ht).
Qed.

Lemma request_body_untrimmed_witness :
  option_map body (snd (sendMessage None idle_padded 1000 1000))
    = Some (JObject [("message", JString " hi ")]).
Proof.
  rewrite (request_body_untrimmed None idle_padded 1000 1000 eq_refl).
  - reflexivity.
  - discriminate.
Defined.

(** ** Message ids *)

Lemma distinct_below_nil (b : Z) : distinct_below b [].
Proof. split; constructor. Qed.

Lemma distinct_below_mono (b b' : Z) (ms : list Message) :
  b <= b' -> distinct_below b ms -> distinct_below b' ms.
Proof.
  intros Hb [Hids Hnd]. split; [|assumption].
  unfold ids_below in *. rewrite Forall_forall in *.
  intros m Hm. destruct (Hids m Hm) as (n & Hn & Hlt).
  exists n. split; [assumption | lia].
Qed.

Lemma distinct_below_snoc (b n : Z) (ms : list Message) (m : Message) :
  distinct_below b ms -> b <= n -> id m = toString n ->
  distinct_below (n + 1) (ms ++ [m]).
Proof.
  intros [Hids Hnd] Hb Hid. split.
  - apply Forall_app. split.
    + apply (distinct_below_mono b); [lia | now split].
    + constructor; [|constructor]. exists n. split; [assumption | lia].
  - rewrite map_app. apply NoDup_app; [assumption | |].
    + constructor; [intros [] | constructor].
    + intros i Hi [<- | []].
      apply in_map_iff in Hi. destruct Hi as (m' & Hm' & Hin).
      unfold ids_below in Hids. rewrite Forall_forall in Hids.
      destruct (Hids m' Hin) as (n' & Hn' & Hlt).
      rewrite Hid, Hn' in Hm'. apply toString_inj in Hm'. lia.
Qed.

(** One event of a well spaced trace keeps the ids distinct and below the
    bound the rest of the trace is spaced against. *)
Lemma step_distinct
  (env : option string) (w w' : World) (e : Event) (rest : list Event)
  (b : Z) :
  step env w e = Some w' ->
  well_spaced env b w (e :: rest) ->
  distinct_below b (messages (ui w)) ->
  exists b',
    well_spaced env b' w' rest /\ distinct_below b' (messages (ui w')).
Proof.
  intros Hstep Hsp Hinv. cbn [well_spaced] in Hsp. rewrite Hstep in Hsp.
  destruct e as [|v|now date|o now date|]; cbn [step] in Hstep.
  - injection Hstep as <-. now exists b.
  - injection Hstep as <-. now exists b.
  - unfold sendMessage in Hstep, Hsp.
    destruct (falsy (trim (inputMessage (ui w))) || isLoading (ui w));
      cbn [snd] in Hsp; injection Hstep as <-.
    + exists b. split; assumption.
    + destruct Hsp as [Hb Hsp]. exists (now + 1). split; [assumption|].
      cbn [ui messages setMessages setError setIsLoading setInputMessage].
      now apply (distinct_below_snoc b).
  - destruct Hsp as [Hb Hsp]. exists (now + 2). split; [assumption|].
    destruct (inflight w) as [|req more]; [discriminate|].
    injection Hstep as <-. cbn [ui]. rewrite resume_messages.
    replace (now + 2) with ((now + 1) + 1) by lia.
    now apply (distinct_below_snoc b).
  - injection Hstep as <-. exists b. split; [assumption|].
    apply distinct_below_nil.
Qed.

Lemma run_distinct (env : option string) (trace : list Event) :
  forall (w w' : World) (b : Z),
    run env w trace = Some w' ->
    well_spaced env b w trace ->
    distinct_below b (messages (ui w)) ->
    NoDup (map id (messages (ui w'))).
Proof.
  induction trace as [|e rest IH]; intros w w' b Hrun Hsp Hinv.
  - injection Hrun as <-. apply Hinv.
  - cbn [run] in Hrun. destruct (step env w e) as [w1|] eqn:Hstep;
      [|discriminate].
    destruct (step_distinct env w w1 e rest b Hstep Hsp Hinv)
      as (b' & Hsp' & Hinv').
    exact (IH w1 w' b' Hrun Hsp' Hinv').
Qed.

(** C8: the claim asks for pairwise distinct ids; here the code repeats
    one.  A reply that settles when the clock reads 1004 gets the id
    "1005" (the reading plus one), and the user message submitted when the
    clock reads 1005 gets the id "1005" too. *)
Lemma duplicate_id_at_next_millisecond :
  option_map (fun w => map id (messages (ui w)))
    (run None initialWorld collision_trace)
  = Some ["1000"; "1005"; "1005"]
  /\ ~ NoDup ["1000"; "1005"; "1005"].
Proof.
  split; [reflexivity|].
  intros H. inversion H as [|x l _ H1]; subst.
  inversion H1 as [|y l' Hin _]; subst. apply Hin. now left.
Qed.

(** X14: the message ids are pairwise distinct in every state reached by
    a session in which each clock reading taken for an id gives a number
    above all those used before: an accepted submit reads a value above
    every earlier accepted submit's and at least two above every earlier
    settlement's, and a settlement reads a value not below any earlier
    accepted submit's and above every earlier settlement's. *)
Theorem ids_distinct_when_well_spaced
  (env : option string) (trace : list Event) (w : World) (start : Z) :
  well_spaced env start initialWorld trace ->
  run env initialWorld trace = Some w ->
  NoDup (map id (messages (ui w))).
Proof.
  intros Hsp Hrun.
  apply (run_distinct env trace initialWorld w start Hrun Hsp).
  apply distinct_below_nil.
Qed.

Lemma ids_distinct_when_well_spaced_witness :
  well_spaced None 0 initialWorld spaced_trace
  /\ option_map (fun w => map id (messages (ui w)))
       (run None initialWorld spaced_trace)
     = Some ["1000"; "1005"; "1006"]
  /\ NoDup ["1000"; "1005"; "1006"].
Proof.
  assert (Hsp : well_spaced None 0 initialWorld spaced_trace)
    by (vm_compute; repeat split; discriminate).
  split; [exact Hsp|]. split; [reflexivity|].
  destruct (run None initialWorld spaced_trace) as [w|] eqn:E; [|discriminate].
  pose proof (ids_distinct_when_well_spaced None spaced_trace w 0 Hsp E) as H.
  vm_compute in E. injection E as <-. exact H.
Defined.

(** * Further properties of the component *)

(** ** Reasoning over sessions *)

Lemma run_app (env : option string) (t1 t2 : list Event) (w : World) :
  run env w (t1 ++ t2) =
  match run env w t1 with
  | Some w1 => run env w1 t2
  | None => None
  end.
Proof.
  revert w. induction t1 as [|e t1 IH]; intros w; [reflexivity|].
  cbn [app run]. destruct (step env w e); [apply IH | reflexivity].
Qed.

(** Induction over the worlds a session can reach. *)
Lemma reachable_ind (env : option string) (P : World -> Prop) :
  P initialWorld ->
  (forall w e w',
      reachable env w -> P w -> step env w e = Some w' -> P w') ->
  forall w, reachable env w -> P w.
Proof.
  intros Hinit Hstep w [trace Hrun]. revert w Hrun.
  induction trace as [|e trace IH] using rev_ind; intros w Hrun.
  - injection Hrun as <-. exact Hinit.
  - rewrite run_app in Hrun.
    destruct (run env initialWorld trace) as [w1|] eqn:E; [|discriminate].
    cbn [run] in Hrun.
    destruct (step env w1 e) as [w2|] eqn:Es; [|discriminate].
    injection Hrun as <-.
    apply (Hstep w1 e w2); [now exists trace | now apply IH | assumption].
Qed.

Lemma reachable_pending_hello : reachable None pending_hello.
Proof. exists [Mount; Change "Hello"; Submit 1000 1000]. reflexivity. Qed.

Lemma reachable_failed_hello : reachable None failed_hello.
Proof.
  exists [Mount; Change "Hello"; Submit 1000 1000; Settle http_500 1200 1200].
  reflexivity.
Qed.

(** A settlement finds the loading flag up. *)
Lemma settle_when_loading (env : option string) (w : World) :
  reachable env w -> inflight w <> [] -> isLoading (ui w) = true.
Proof.
  intros Hr Hin.
  destruct (reachable_single_flight env w Hr) as [[_ H] | [H _]];
    [contradiction | assumption].
Qed.

(** The three shapes of a step that changes [messages]. *)
Lemma step_cases (env : option string) (w w' : World) (e : Event) :
  step env w e = Some w' ->
  (messages (ui w') = messages (ui w) /\ error (ui w') = error (ui w)
   /\ isLoading (ui w') = isLoading (ui w)
   /\ inflight w' = inflight w /\ sent w' = sent w /\ isClear e = false)
  \/ (exists now date q,
        e = Submit now date
        /\ isLoading (ui w) = false /\ trim (inputMessage (ui w)) <> ""
        /\ sendMessage env (ui w) now date = (ui w', Some q)
        /\ messages (ui w') =
           messages (ui w) ++
           [{| id := toString now; text := JString (inputMessage (ui w));
               isUser := true; timestamp := date |}]
        /\ inflight w' = inflight w ++ [q] /\ sent w' = sent w ++ [q])
  \/ (exists o now date q,
        e = Settle o now date
        /\ ui w' = sendMessage_resume (ui w) o now date
        /\ inflight w = q :: inflight w' /\ sent w' = sent w)
  \/ (e = Clear /\ ui w' = clearChat (ui w)
      /\ inflight w' = inflight w /\ sent w' = sent w).
Proof.
  intros Hstep. destruct e as [|v|now date|o now date|]; cbn [step] in Hstep.
  - injection Hstep as <-. left. repeat split.
  - injection Hstep as <-. left. repeat split.
  - destruct (isLoading (ui w)) eqn:Hl.
    + rewrite (sendMessage_rejected env _ now date (or_intror Hl)) in Hstep.
      injection Hstep as <-. left. cbn. rewrite !app_nil_r. repeat split.
      assumption.
    + destruct (isEmpty (trim (inputMessage (ui w)))) eqn:Ht.
      * apply isEmpty_true in Ht.
        rewrite (sendMessage_rejected env _ now date (or_introl Ht)) in Hstep.
        injection Hstep as <-. left. cbn. rewrite !app_nil_r. repeat split.
        assumption.
      * apply isEmpty_false in Ht.
        pose proof (sendMessage_accepted env (ui w) now date Hl Ht) as Hs.
        rewrite Hs in Hstep. injection Hstep as <-.
        right; left. do 3 eexists. split; [reflexivity|].
        split; [reflexivity|]. split; [assumption|].
        split; [exact Hs|]. repeat split.
  - destruct (inflight w) as [|q rest] eqn:Hin; [discriminate|].
    injection Hstep as <-. right; right; left.
    exists o, now, date, q. repeat split.
  - injection Hstep as <-. right; right; right. repeat split.
Qed.

(** ** Requests *)

(** X1: in every reachable world at most one request is in flight, and one
    is in flight exactly when the loading flag is up. *)
Theorem single_flight_reachable (env : option string) (w : World) :
  reachable env w ->
  (List.length (inflight w) <= 1)%nat
  /\ (isLoading (ui w) = true <-> inflight w <> []).
Proof.
  intros Hr.
  destruct (reachable_single_flight env w Hr) as [[Hl Hin] | [Hl [q Hin]]];
    rewrite Hl, Hin; cbn; (split; [lia|]); split; congruence.
Qed.

Lemma single_flight_reachable_witness :
  (List.length (inflight pending_hello) <= 1)%nat
  /\ (isLoading (ui pending_hello) = true <-> inflight pending_hello <> []).
Proof.
  exact (single_flight_reachable None pending_hello reachable_pending_hello).
Defined.

Lemma sendMessage_request (env : option string) (s s' : State)
  (now date : Z) (q : Request) :
  sendMessage env s now date = (s', Some q) -> chat_request env q.
Proof.
  unfold sendMessage.
  destruct (falsy (trim (inputMessage s))) eqn:Ht; [discriminate|].
  destruct (isLoading s); [discriminate|]. cbn [orb].
  intros H. injection H as _ <-. repeat split.
  exists (inputMessage s). split; [reflexivity|]. now apply isEmpty_false.
Qed.

(** X2: every request a session has ever handed to [fetch] is a JSON POST
    to the endpoint whose body is the object with the single field
    [message] holding a text that is not blank; the requests in flight are
    among them. *)
Theorem sent_requests_well_formed (env : option string) (w : World) :
  reachable env w ->
  Forall (chat_request env) (sent w) /\ incl (inflight w) (sent w).
Proof.
  revert w. apply reachable_ind.
  - split; [constructor | intros q []].
  - intros w e w' _ [Hs Hi] Hstep.
    destruct (step_cases env w w' e Hstep)
      as [(_ & _ & _ & Hin & Hse & _)
         | [(now & date & q & _ & _ & _ & Hsm & _ & Hin & Hse)
           | [(o & now & date & q & _ & _ & Hin & Hse)
             | (_ & _ & Hin & Hse)]]];
      rewrite Hse; try rewrite Hin; try (split; assumption).
    + split.
      * apply Forall_app. split; [assumption|].
        constructor; [|constructor]. exact (sendMessage_request _ _ _ _ _ _ Hsm).
      * apply incl_app_app; [assumption | apply incl_refl].
    + split; [assumption|]. rewrite Hin in Hi.
      intros x Hx. apply Hi. now right.
Qed.

Lemma sent_requests_well_formed_witness :
  Forall (chat_request None) (sent pending_hello)
  /\ incl (inflight pending_hello) (sent pending_hello).
Proof.
  exact (sent_requests_well_formed None pending_hello reachable_pending_hello).
Defined.

(** ** The transcript *)

(** X3: every user message of a reachable transcript carries a string that
    is not blank. *)
Theorem user_messages_not_blank (env : option string) (w : World) :
  reachable env w ->
  Forall (fun m => isUser m = true ->
                   exists t, text m = JString t /\ trim t <> "")
         (messages (ui w)).
Proof.
  revert w. apply reachable_ind.
  - constructor.
  - intros w e w' _ IH Hstep.
    destruct (step_cases env w w' e Hstep)
      as [(Hm & _)
         | [(now & date & q & _ & _ & Ht & _ & Hm & _)
           | [(o & now & date & q & _ & Hui & _)
             | (_ & Hui & _)]]].
    + now rewrite Hm.
    + rewrite Hm. apply Forall_app. split; [assumption|].
      constructor; [|constructor]. intros _.
      exists (inputMessage (ui w)). split; [reflexivity | assumption].
    + rewrite Hui, resume_messages. apply Forall_app. split; [assumption|].
      constructor; [|constructor]. discriminate.
    + rewrite Hui. constructor.
Qed.

Lemma user_messages_not_blank_witness :
  Forall (fun m => isUser m = true ->
                   exists t, text m = JString t /\ trim t <> "")
         (messages (ui failed_hello)).
Proof.
  exact (user_messages_not_blank None failed_hello reachable_failed_hello).
Defined.

Lemma step_accounting (env : option string) (w w' : World) (e : Event) :
  step env w e = Some w' ->
  ((List.length (messages (ui w')) + List.length (inflight w')
    + 2 * List.length (sent w)
    <= List.length (messages (ui w)) + List.length (inflight w)
       + 2 * List.length (sent w'))%nat)
  /\ (isClear e = false ->
      (List.length (messages (ui w')) + List.length (inflight w')
       + 2 * List.length (sent w)
       = List.length (messages (ui w)) + List.length (inflight w)
         + 2 * List.length (sent w'))%nat).
Proof.
  intros Hstep.
  destruct (step_cases env w w' e Hstep)
    as [(Hm & _ & _ & Hin & Hse & _)
       | [(now & date & q & _ & _ & _ & _ & Hm & Hin & Hse)
         | [(o & now & date & q & _ & Hui & Hin & Hse)
           | (He & Hui & Hin & Hse)]]].
  - rewrite Hm, Hin, Hse. split; [|intros _]; lia.
  - rewrite Hm, Hin, Hse, !length_app. cbn [List.length].
    split; [|intros _]; lia.
  - rewrite Hui, resume_messages, Hin, Hse, length_app. cbn [List.length].
    split; [|intros _]; lia.
  - rewrite Hui, Hin, Hse, He. cbn. split; [lia | discriminate].
Qed.

(** X4: the messages of the transcript and the requests in flight never
    outnumber twice the requests sent, and as long as the chat has not been
    cleared they number exactly that: each request accounts for its user
    message and, once settled, for one assistant message. *)
Theorem transcript_accounting
  (env : option string) (trace : list Event) (w : World) :
  run env initialWorld trace = Some w ->
  (List.length (messages (ui w)) + List.length (inflight w)
   <= 2 * List.length (sent w))%nat
  /\ (existsb isClear trace = false ->
      (List.length (messages (ui w)) + List.length (inflight w)
       = 2 * List.length (sent w))%nat).
Proof.
  revert w. induction trace as [|e trace IH] using rev_ind; intros w Hrun.
  - injection Hrun as <-. cbn. split; [lia | reflexivity].
  - rewrite run_app in Hrun.
    destruct (run env initialWorld trace) as [w1|] eqn:E; [|discriminate].
    cbn [run] in Hrun.
    destruct (step env w1 e) as [w2|] eqn:Es; [|discriminate].
    injection Hrun as <-.
    destruct (IH w1 eq_refl) as [Hle Heq].
    destruct (step_accounting env w1 w2 e Es) as [Hle' Heq'].
    split; [lia|].
    rewrite existsb_app. cbn [existsb]. rewrite orb_false_r.
    intros Hc. apply orb_false_iff in Hc. destruct Hc as [Hc1 Hc2].
    specialize (Heq Hc1). specialize (Heq' Hc2). lia.
Qed.

Lemma transcript_accounting_witness :
  (List.length (messages (ui failed_hello)) + List.length (inflight failed_hello)
   = 2 * List.length (sent failed_hello))%nat.
Proof.
  refine (proj2 (transcript_accounting None
            [Mount; Change "Hello"; Submit 1000 1000; Settle http_500 1200 1200]
            failed_hello eq_refl) eq_refl).
Defined.

Lemma final_snoc (ms : list Message) (m : Message) : final (ms ++ [m]) = Some m.
Proof. unfold final. now rewrite rev_app_distr. Qed.

Lemma final_cons (a : Message) (ms : list Message) :
  ms <> [] -> final (a :: ms) = final ms.
Proof.
  intros Hne. unfold final. cbn [rev].
  destruct (rev ms) as [|x l] eqn:E; [|reflexivity].
  apply (f_equal (@rev Message)) in E. rewrite rev_involutive in E.
  contradiction.
Qed.

Lemma alternates_snoc (ms : list Message) (m : Message) :
  alternates ms = true ->
  (forall l, final ms = Some l -> isUser l = negb (isUser m)) ->
  alternates (ms ++ [m]) = true.
Proof.
  induction ms as [|a rest IH]; intros Halt Hfin; [reflexivity|].
  destruct rest as [|b rest'].
  - cbn. rewrite (Hfin a eq_refl). now destruct (isUser m).
  - cbn [app alternates] in *. apply andb_true_iff in Halt.
    destruct Halt as [Hab Hrest]. rewrite Hab. cbn [andb].
    apply IH; [assumption|].
    intros l Hl. apply Hfin. rewrite final_cons; [assumption | discriminate].
Qed.

Lemma sendMessage_accepted_state (env : option string) (s s' : State)
  (now date : Z) (q : Request) :
  sendMessage env s now date = (s', Some q) ->
  isLoading s' = true /\ error s' = None /\ inputMessage s' = ""
  /\ isClient s' = isClient s.
Proof.
  unfold sendMessage.
  destruct (falsy (trim (inputMessage s)) || isLoading s); [discriminate|].
  intros H. injection H as <- _. repeat split.
Qed.

Lemma or_else_nonempty (a b : string) : b <> "" -> or_else a b <> "".
Proof. intros Hb. unfold or_else. destruct a; cbn; [assumption | discriminate]. Qed.

(** The error and the end of the transcript go together. *)
Lemma error_shape_reachable (env : option string) (w : World) :
  reachable env w -> error_shape (ui w).
Proof.
  revert w. apply reachable_ind.
  - intros e He. discriminate.
  - intros w e w' Hr IH Hstep.
    destruct (step_cases env w w' e Hstep)
      as [(Hm & He & Hl & _)
         | [(now & date & q & _ & _ & _ & Hsm & _)
           | [(o & now & date & q & _ & Hui & Hin & _)
             | (_ & Hui & _)]]].
    + unfold error_shape. now rewrite Hm, He, Hl.
    + destruct (sendMessage_accepted_state _ _ _ _ _ _ Hsm) as (_ & He & _).
      intros e' He'. congruence.
    + assert (Hl : isLoading (ui w) = true).
      { apply (settle_when_loading env w Hr). rewrite Hin. discriminate. }
      assert (Hnone : error (ui w) = None).
      { destruct (error (ui w)) as [e0|] eqn:E0; [|reflexivity].
        destruct (IH e0 E0) as [Hf _]. congruence. }
      rewrite Hui. intros e' He'.
      destruct (attempt o) as [reply | err] eqn:Ha.
      * rewrite (resume_return _ _ _ _ _ Ha) in He'. cbn in He'. congruence.
      * rewrite (resume_throw _ _ _ _ _ Ha) in *. cbn [error] in He'.
        injection He' as <-. cbn [isLoading messages].
        split; [reflexivity|]. split.
        -- eexists. split; [reflexivity|].
           apply or_else_nonempty. discriminate.
        -- eexists. split; [apply final_snoc|]. split; reflexivity.
    + rewrite Hui. intros e' He'. discriminate.
Qed.

(** X5: in every reachable state, when [error] is set the component is
    idle, the error text is ["Failed to send message: "] followed by a
    detail that is not empty, and the transcript ends with the assistant's
    apology. *)
Theorem error_implies_idle_apology
  (env : option string) (w : World) (e : string) :
  reachable env w ->
  error (ui w) = Some e ->
  isLoading (ui w) = false
  /\ (exists detail,
        e = ("Failed to send message: " ++ detail)%string /\ detail <> "")
  /\ (exists m, final (messages (ui w)) = Some m
                /\ isUser m = false
                /\ text m
                   = JString "Sorry, I encountered an error. Please try again.").
Proof.
  intros Hr He. exact (error_shape_reachable env w Hr e He).
Qed.

Lemma error_implies_idle_apology_witness :
  isLoading (ui failed_hello) = false
  /\ (exists detail,
        "Failed to send message: HTTP error! status: 500"
        = ("Failed to send message: " ++ detail)%string /\ detail <> "")
  /\ (exists m, final (messages (ui failed_hello)) = Some m
                /\ isUser m = false
                /\ text m
                   = JString "Sorry, I encountered an error. Please try again.").
Proof.
  exact (error_implies_idle_apology None failed_hello _
           reachable_failed_hello eq_refl).
Defined.

(** X6: in every reachable transcript neighbouring messages have different
    origins, and a transcript that is not empty ends with the user's
    message exactly when a request is pending (with the assistant's when
    the component is idle).  Nothing is said of the empty transcript, which
    a clear leaves behind whether a request is pending or not. *)
Theorem transcript_turn_taking (env : option string) (w : World) :
  reachable env w ->
  alternates (messages (ui w)) = true
  /\ (forall m, final (messages (ui w)) = Some m ->
                isUser m = isLoading (ui w)).
Proof.
  revert w. apply reachable_ind.
  - split; [reflexivity | discriminate].
  - intros w e w' Hr [Halt Hfin] Hstep.
    destruct (step_cases env w w' e Hstep)
      as [(Hm & _ & Hl & _)
         | [(now & date & q & _ & Hl & _ & Hsm & Hm & _)
           | [(o & now & date & q & _ & Hui & Hin & _)
             | (_ & Hui & _)]]].
    + now rewrite Hm, Hl.
    + destruct (sendMessage_accepted_state _ _ _ _ _ _ Hsm) as (Hl' & _).
      rewrite Hm, Hl'. split.
      * apply alternates_snoc; [assumption|].
        intros l Hfl. rewrite (Hfin l Hfl). exact Hl.
      * intros m Hm'. rewrite final_snoc in Hm'. now injection Hm' as <-.
    + assert (Hl : isLoading (ui w) = true).
      { apply (settle_when_loading env w Hr). rewrite Hin. discriminate. }
      rewrite Hui, resume_messages. split.
      * apply alternates_snoc; [assumption|].
        intros l Hfl. rewrite (Hfin l Hfl). exact Hl.
      * intros m Hm'. rewrite final_snoc in Hm'. injection Hm' as <-.
        unfold sendMessage_resume. now destruct (attempt o).
    + rewrite Hui. split; [reflexivity | discriminate].
Qed.

Lemma transcript_turn_taking_witness :
  alternates (messages (ui failed_hello)) = true
  /\ (forall m, final (messages (ui failed_hello)) = Some m ->
                isUser m = isLoading (ui failed_hello)).
Proof.
  exact (transcript_turn_taking None failed_hello reachable_failed_hello).
Defined.

(** ** The guard, character by character *)

Lemma trimEnd_empty_iff (t : string) : trimEnd t = "" <-> blank t = true.
Proof.
  unfold blank. induction t as [|c r IH]; [cbn; tauto|].
  cbn [trimEnd list_ascii_of_string forallb].
  destruct (isWhiteSpace c); cbn [andb].
  - rewrite <- IH. destruct (trimEnd r); cbn; split; congruence.
  - split; discriminate.
Qed.

Lemma blank_trimStart (s : string) : blank (trimStart s) = blank s.
Proof.
  unfold blank. induction s as [|c r IH]; [reflexivity|].
  cbn [trimStart]. destruct (isWhiteSpace c) eqn:E.
  - rewrite IH. cbn [list_ascii_of_string forallb]. now rewrite E.
  - reflexivity.
Qed.

Lemma trim_empty_iff (s : string) : trim s = "" <-> blank s = true.
Proof. unfold trim. now rewrite trimEnd_empty_iff, blank_trimStart. Qed.

(** X7: from an idle state [sendMessage] returns at its guard exactly when
    every character of the input is white space (TAB, LF, VT, FF, CR, SP,
    NBSP), the empty input included; for any other input it hands a request
    to [fetch]. *)
Theorem guard_rejects_exactly_blank
  (env : option string) (s : State) (now date : Z) :
  isLoading s = false ->
  (blank (inputMessage s) = true <-> sendMessage env s now date = (s, None))
  /\ (blank (inputMessage s) = false <->
      exists s' q, sendMessage env s now date = (s', Some q)).
Proof.
  intros Hl.
  destruct (blank (inputMessage s)) eqn:Hb.
  - assert (Ht : trim (inputMessage s) = "") by now apply trim_empty_iff.
    rewrite (sendMessage_rejected env s now date (or_introl Ht)).
    split; split; try discriminate; try reflexivity.
    intros (s' & q & H). discriminate.
  - assert (Ht : trim (inputMessage s) <> "").
    { intros H. apply trim_empty_iff in H. congruence. }
    rewrite (sendMessage_accepted env s now date Hl Ht).
    split; split; try discriminate; try reflexivity.
    intros _. eauto.
Qed.

Lemma guard_rejects_exactly_blank_witness :
  blank (inputMessage idle_padded) = false
  /\ exists s' q, sendMessage None idle_padded 1000 1000 = (s', Some q).
Proof.
  split; [reflexivity|].
  apply (guard_rejects_exactly_blank None idle_padded 1000 1000 eq_refl).
  reflexivity.
Defined.

(** X8: once an exchange has settled, with a reply or with a failure, the
    component is idle with an empty input field, so a further submit does
    nothing until something is typed: the text of a failed message is not
    put back and nothing is retried. *)
Theorem exchange_leaves_empty_input
  (env : option string) (s : State) (now date : Z) (o : Outcome)
  (now' date' now'' date'' : Z) :
  isLoading s = false ->
  trim (inputMessage s) <> "" ->
  let s' := exchange env s now date o now' date' in
  inputMessage s' = "" /\ isLoading s' = false
  /\ sendMessage env s' now'' date'' = (s', None).
Proof.
  intros Hl Ht s'.
  assert (Hin : inputMessage s' = "").
  { subst s'. unfold exchange.
    rewrite (sendMessage_accepted env s now date Hl Ht). cbn [fst].
    unfold sendMessage_resume. now destruct (attempt o). }
  split; [assumption|]. split.
  - subst s'. unfold exchange, sendMessage_resume. now destruct (attempt o).
  - apply sendMessage_rejected. left. now rewrite Hin.
Qed.

Lemma exchange_leaves_empty_input_witness :
  let s' := exchange None idle_hello 1000 1000 http_500 1200 1200 in
  inputMessage s' = "" /\ isLoading s' = false
  /\ sendMessage None s' 1300 1300 = (s', None).
Proof.
  apply (exchange_leaves_empty_input None idle_hello 1000 1000 http_500
           1200 1200 1300 1300).
  - reflexivity.
  - discriminate.
Defined.

(** X9: the two messages of an exchange get the same id exactly when the
    clock at settlement reads one less than at submit; with a clock that
    does not run backwards they differ. *)
Theorem exchange_ids
  (env : option string) (s : State) (now date : Z) (o : Outcome)
  (now' date' : Z) :
  isLoading s = false ->
  trim (inputMessage s) <> "" ->
  exists u a,
    messages (exchange env s now date o now' date') = messages s ++ [u; a]
    /\ isUser u = true /\ isUser a = false
    /\ (id u = id a <-> now = now' + 1)
    /\ (now <= now' -> id u <> id a).
Proof.
  intros Hl Ht. unfold exchange.
  rewrite (sendMessage_accepted env s now date Hl Ht). cbn [fst].
  rewrite resume_messages. cbn [messages]. rewrite <- app_assoc.
  do 2 eexists. split; [reflexivity|]. cbn [isUser id].
  split; [reflexivity|]. split; [reflexivity|].
  assert (Hiff : toString now = toString (now' + 1) <-> now = now' + 1).
  { split; [apply toString_inj | congruence]. }
  split; [exact Hiff|]. intros Hle Heq. apply Hiff in Heq. lia.
Qed.

Lemma exchange_ids_witness :
  exists u a,
    messages (exchange None idle_hello 1000 1000 reply_hi 1000 1000)
    = messages idle_hello ++ [u; a]
    /\ id u <> id a.
Proof.
  destruct (exchange_ids None idle_hello 1000 1000 reply_hi 1000 1000)
    as (u & a & Hm & _ & _ & _ & Hne); [reflexivity | discriminate |].
  exists u, a. split; [exact Hm|]. apply Hne. lia.
Defined.

(** ** The page *)

Lemma render_interactive (formatTime : Z -> string) (s : State) (p : Page) :
  render formatTime s = Interactive p ->
  isClient s = true
  /\ p = {| pane := if (List.length (messages s) =? 0)%nat then Welcome
                    else Conversation (map (renderMessage formatTime) (messages s))
                                      (isLoading s);
            banner := match error s with
                      | Some e => if falsy e then None else Some e
                      | None => None
                      end;
            inputValue := inputMessage s;
            inputDisabled := isLoading s;
            submitDisabled := falsy (trim (inputMessage s)) || isLoading s |}.
Proof.
  unfold render. destruct (isClient s); cbn [negb]; [|discriminate].
  intros H. injection H as <-. split; reflexivity.
Qed.

(** X10: on the interactive page the submit button is disabled exactly
    when [sendMessage] would return at its guard, leaving the state as it
    is and sending nothing; the input is disabled exactly while loading. *)
Theorem submit_button_matches_guard
  (formatTime : Z -> string) (env : option string) (s : State)
  (now date : Z) (p : Page) :
  render formatTime s = Interactive p ->
  (submitDisabled p = true <-> sendMessage env s now date = (s, None))
  /\ (submitDisabled p = false <->
      exists s' q, sendMessage env s now date = (s', Some q))
  /\ inputDisabled p = isLoading s.
Proof.
  intros Hr. destruct (render_interactive formatTime s p Hr) as [_ ->].
  cbn [submitDisabled inputDisabled]. unfold sendMessage.
  destruct (falsy (trim (inputMessage s)) || isLoading s).
  - repeat split; try discriminate. intros (s' & q & H). discriminate.
  - repeat split; try discriminate. intros _. eauto.
Qed.

Lemma submit_button_matches_guard_witness :
  exists p,
    render (fun _ => "12:00 PM") (ui pending_hello_typed_B) = Interactive p
    /\ submitDisabled p = true
    /\ sendMessage None (ui pending_hello_typed_B) 1100 1100
       = (ui pending_hello_typed_B, None).
Proof.
  eexists. split; [reflexivity|]. split; [reflexivity|].
  apply (submit_button_matches_guard (fun _ => "12:00 PM") None
           (ui pending_hello_typed_B) 1100 1100 _ eq_refl).
  reflexivity.
Defined.

(** X11: right after [clearChat] the mounted page shows the welcome prompt
    and no error banner, whatever was there before; while a request is
    still pending the input stays disabled, yet no "Thinking..." indicator
    is shown, since that indicator lives in the message list. *)
Theorem render_after_clear (formatTime : Z -> string) (s : State) :
  isClient s = true ->
  render formatTime (clearChat s) =
  Interactive {| pane := Welcome;
                 banner := None;
                 inputValue := inputMessage s;
                 inputDisabled := isLoading s;
                 submitDisabled :=
                   falsy (trim (inputMessage s)) || isLoading s |}.
Proof. intros Hc. unfold render, clearChat. cbn. now rewrite Hc. Qed.

Lemma render_after_clear_witness :
  render (fun _ => "12:00 PM") (clearChat (ui pending_hello)) =
  Interactive {| pane := Welcome; banner := None; inputValue := "";
                 inputDisabled := true; submitDisabled := true |}.
Proof.
  exact (render_after_clear (fun _ => "12:00 PM") (ui pending_hello) eq_refl).
Defined.

Lemma final_inv (ms : list Message) (m : Message) :
  final ms = Some m -> exists front, ms = front ++ [m].
Proof.
  unfold final. destruct (rev ms) as [|x l] eqn:E; [discriminate|].
  intros H. injection H as ->. exists (rev l).
  apply (f_equal (@rev Message)) in E. now rewrite rev_involutive in E.
Qed.

(** X12: on the page of a reachable state the banner shows [error] as it
    is (a set error is never the empty string, which the page would hide);
    and when the banner is shown the input is enabled, the "Thinking..."
    indicator is off and the last bubble is the assistant's apology. *)
Theorem banner_on_reachable_page
  (formatTime : Z -> string) (env : option string) (w : World) (p : Page) :
  reachable env w ->
  render formatTime (ui w) = Interactive p ->
  banner p = error (ui w)
  /\ (banner p <> None ->
      inputDisabled p = false
      /\ exists bubbles b,
           pane p = Conversation (bubbles ++ [b]) false
           /\ justifyEnd b = false /\ avatar b = true
           /\ content b
              = JString "Sorry, I encountered an error. Please try again.").
Proof.
  intros Hr Hp. destruct (render_interactive formatTime (ui w) p Hp) as [_ ->].
  cbn [banner inputDisabled pane].
  pose proof (error_shape_reachable env w Hr) as Hshape.
  destruct (error (ui w)) as [e|] eqn:He; [|split; congruence].
  destruct (Hshape e He) as (Hl & (detail & -> & _) & (m & Hfin & Hu & Ht)).
  cbn [String.append falsy isEmpty]. split; [reflexivity|]. intros _.
  split; [assumption|].
  destruct (final_inv _ _ Hfin) as [front Hms]. rewrite Hms, Hl.
  rewrite length_app, map_app. cbn [List.length map].
  replace (List.length front + 1 =? 0)%nat with false
    by (symmetry; apply Nat.eqb_neq; lia).
  do 2 eexists. split; [reflexivity|].
  cbn [renderMessage justifyEnd avatar content]. rewrite Hu, Ht.
  repeat split.
Qed.

Lemma banner_on_reachable_page_witness :
  exists p,
    render (fun _ => "12:00 PM") (ui failed_hello) = Interactive p
    /\ banner p = Some "Failed to send message: HTTP error! status: 500"
    /\ inputDisabled p = false.
Proof.
  eexists. split; [reflexivity|].
  destruct (banner_on_reachable_page (fun _ => "12:00 PM") None failed_hello _
              reachable_failed_hello eq_refl) as [Hb Hshown].
  split; [exact Hb|]. apply Hshown. discriminate.
Defined.

Lemma step_isClient (env : option string) (w w' : World) (e : Event) :
  step env w e = Some w' ->
  isClient (ui w') = isClient (ui w) || isMount e.
Proof.
  intros Hstep. destruct e as [|v|now date|o now date|]; cbn [step] in Hstep.
  - injection Hstep as <-. cbn. now rewrite orb_true_r.
  - injection Hstep as <-. cbn. now rewrite orb_false_r.
  - unfold sendMessage in Hstep.
    destruct (falsy (trim (inputMessage (ui w))) || isLoading (ui w));
      injection Hstep as <-; cbn; now rewrite orb_false_r.
  - destruct (inflight w); [discriminate|]. injection Hstep as <-.
    cbn [ui isMount]. rewrite orb_false_r.
    unfold sendMessage_resume. now destruct (attempt o).
  - injection Hstep as <-. cbn. now rewrite orb_false_r.
Qed.

Lemma run_isClient (env : option string) (trace : list Event) :
  forall w w',
    run env w trace = Some w' ->
    isClient (ui w') = isClient (ui w) || existsb isMount trace.
Proof.
  induction trace as [|e rest IH]; intros w w' Hrun; cbn [run] in Hrun.
  - injection Hrun as <-. cbn. now rewrite orb_false_r.
  - destruct (step env w e) as [w1|] eqn:Hstep; [|discriminate].
    rewrite (IH w1 w' Hrun), (step_isClient env w w1 e Hstep).
    cbn [existsb]. now rewrite orb_assoc.
Qed.

(** X13: a session shows the "Loading..." placeholder exactly as long as
    the mount effect has not run: no handler raises or lowers the
    [isClient] flag, so the placeholder never comes back. *)
Theorem placeholder_until_mount
  (formatTime : Z -> string) (env : option string)
  (trace : list Event) (w : World) :
  run env initialWorld trace = Some w ->
  (render formatTime (ui w) = Placeholder <-> existsb isMount trace = false).
Proof.
  intros Hrun. pose proof (run_isClient env trace _ _ Hrun) as Hc.
  cbn [initialWorld ui initialState isClient orb] in Hc.
  unfold render. rewrite Hc.
  destruct (existsb isMount trace); cbn [negb]; split; congruence.
Qed.

Lemma placeholder_until_mount_witness :
  render (fun _ => "12:00 PM") (ui failed_hello) <> Placeholder.
Proof.
  intros H.
  apply (placeholder_until_mount (fun _ => "12:00 PM") None
           [Mount; Change "Hello"; Submit 1000 1000; Settle http_500 1200 1200]
           failed_hello eq_refl) in H.
  discriminate.
Defined.
